(** * The torrc-override launcher (src/resources/torrcOverride/override.c)

    The whole program is

      int main() { return execve(TOR_ARM_REPLACE_TORRC, NULL, NULL); }

    It is embedded as a term of a small monad of library calls, [prog],
    and run against a model of the operating system in which the decision
    of [execve] (grant or refuse, and with which errno) is left to the
    kernel: every result below holds for every such kernel. *)

From Stdlib Require Import ZArith String List Bool Lia.
Import ListNotations.
Local Open Scope string_scope.
Local Open Scope Z_scope.

Set Implicit Arguments.

(** ** C-level data *)

(** A [char *const []] argument: either the null pointer or a vector of
    strings (the terminating null entry is left implicit). *)
Definition vector : Type := option (list string).

Definition NULL : vector := None.

(** execve(2) on Linux: "argv and envp can be specified as NULL; in both
    cases this has the same effect as specifying the argument as a pointer
    to a list containing a single null pointer". *)
Definition vec (v : vector) : list string :=
  match v with
  | None => []
  | Some l => l
  end.

(** The calls a C program including <stdio.h>, <stdlib.h>, <sys/types.h>
    and <unistd.h> can issue, as far as the specification speaks of them.
    override.c issues the first one only. *)
Inductive call : Type :=
| Execve (path : string) (argv envp : vector)
| Open (path : string) (flags mode : Z)
| Write (fd : Z) (data : string)
| Socket (domain type protocol : Z)
| Getuid
| Geteuid
| Getgid
| Getegid.

(** Classification of calls by the kind of effect the specification names. *)
Definition is_exec (c : call) : bool :=
  match c with Execve _ _ _ => true | _ => false end.

Definition is_file_effect (c : call) : bool :=
  match c with Open _ _ _ | Write _ _ => true | _ => false end.

Definition is_output (c : call) : bool :=
  match c with Write _ _ => true | _ => false end.

Definition is_network (c : call) : bool :=
  match c with Socket _ _ _ => true | _ => false end.

Definition is_identity_check (c : call) : bool :=
  match c with Getuid | Geteuid | Getgid | Getegid => true | _ => false end.

(** What a call names as a program to execute. *)
Definition exec_target (c : call) : option string :=
  match c with Execve path _ _ => Some path | _ => None end.

(** ** Programs: a call followed by the code that consumes its [int] result *)

Inductive prog (R : Type) : Type :=
| Ret (r : R)
| Call (c : call) (k : Z -> prog R).

Arguments Ret {R} r.
Arguments Call {R} c k.

Fixpoint bind {A B : Type} (m : prog A) (f : A -> prog B) : prog B :=
  match m with
  | Ret a => f a
  | Call c k => Call c (fun r => bind (k r) f)
  end.

Notation "x <- m ;; k" := (bind m (fun x => k))
  (at level 61, m at next level, right associativity).

Definition execve (path : string) (argv envp : vector) : prog Z :=
  Call (Execve path argv envp) Ret.

(** ** The missing header

    override.c includes "tor-arm-replace-torrc.h", which is produced at
    build time and is not part of the sources at hand.  All it contributes
    is the macro TOR_ARM_REPLACE_TORRC, a string literal; it is taken as a
    parameter. *)
Class Header : Type := { TOR_ARM_REPLACE_TORRC : string }.

(** ** override.c *)

(** [int main() { return execve(TOR_ARM_REPLACE_TORRC, NULL, NULL); }] *)
Definition main `{Header} : prog Z :=
  r <- execve TOR_ARM_REPLACE_TORRC NULL NULL ;;
  Ret r.

(** ** The process and the operating system *)

(** Identity of a process as seen by the kernel. *)
Record cred : Type := {
  ruid : Z;
  euid : Z;
  rgid : Z;
  egid : Z;
  groups : list Z
}.

(** What the invoker and the loader hand to a new process, plus [errno]. *)
Record proc : Type := {
  p_argv : list string;
  p_environ : list string;
  p_cred : cred;
  p_errno : Z
}.

Definition set_errno (e : Z) (pr : proc) : proc :=
  {| p_argv := p_argv pr;
     p_environ := p_environ pr;
     p_cred := p_cred pr;
     p_errno := e |}.

(** A program image as started by a successful [execve]. *)
Record image : Type := {
  img_path : string;
  img_argv : list string;
  img_envp : list string
}.

(** The kernel's side.  [exec_check] is its decision on an [execve]
    request, from the caller's credentials and the file system: [None]
    grants it, [Some e] refuses it with errno [e].  [sys_other] is its
    behaviour on every other call. *)
Class Kernel : Type := {
  FS : Type;
  exec_check : cred -> FS -> string -> vector -> vector -> option Z;
  sys_other : call -> proc -> FS -> proc * FS * Z
}.

Inductive reply : Type :=
| Returned (r : Z)
| Replaced (img : image).

(** execve(2): on success the calling program is replaced and the call
    does not return; on failure it returns -1 and sets errno. *)
Definition kernel `{Kernel} (c : call) (pr : proc) (fs : FS)
  : proc * FS * reply :=
  match c with
  | Execve path argv envp =>
      match exec_check (p_cred pr) fs path argv envp with
      | None =>
          (pr, fs, Replaced {| img_path := path;
                               img_argv := vec argv;
                               img_envp := vec envp |})
      | Some e => (set_errno e pr, fs, Returned (-1))
      end
  | _ =>
      let '(pr', fs', r) := sys_other c pr fs in
      (pr', fs', Returned r)
  end.

(** Returning [r] from [main] is [exit(r)]; the invoker's wait() sees
    the low eight bits, [status & 0377]. *)
Definition exit_status (r : Z) : Z := Z.land r 255.

(** ** Big-step run: the calls issued, and how the process ends *)

Inductive outcome : Type :=
| Became (img : image)
| Exited (status : Z).

Record result `{Kernel} : Type := {
  trace : list call;
  ending : outcome;
  final_proc : proc;
  final_fs : FS
}.

Definition logged `{Kernel} (c : call) (r : result) : result :=
  {| trace := c :: trace r;
     ending := ending r;
     final_proc := final_proc r;
     final_fs := final_fs r |}.

Fixpoint run `{Kernel} (p : prog Z) (pr : proc) (fs : FS) : result :=
  match p with
  | Ret r =>
      {| trace := []; ending := Exited (exit_status r);
         final_proc := pr; final_fs := fs |}
  | Call c k =>
      match kernel c pr fs with
      | (pr', fs', Returned r) => logged c (run (k r) pr' fs')
      | (pr', fs', Replaced img) =>
          {| trace := [c]; ending := Became img;
             final_proc := pr'; final_fs := fs' |}
      end
  end.

(** What an invoker can observe of a run. *)
Definition behaviour `{Kernel} (r : result) : list call * outcome * FS :=
  (trace r, ending r, final_fs r).

(** ** Small-step machine *)

Inductive config `{Kernel} : Type :=
| Launcher (p : prog Z) (pr : proc) (fs : FS)
| Target (img : image) (pr : proc) (fs : FS)
| Terminated (status : Z) (fs : FS).

Definition step `{Kernel} (c : config) : option config :=
  match c with
  | Launcher (Ret r) pr fs => Some (Terminated (exit_status r) fs)
  | Launcher (Call c k) pr fs =>
      match kernel c pr fs with
      | (pr', fs', Returned r) => Some (Launcher (k r) pr' fs')
      | (pr', fs', Replaced img) => Some (Target img pr' fs')
      end
  | Target _ _ _ => None
  | Terminated _ _ => None
  end.

(** The configurations visited from [c], at most [fuel] steps deep. *)
Fixpoint execution `{Kernel} (fuel : nat) (c : config) : list config :=
  c :: match fuel with
       | O => []
       | S fuel' =>
           match step c with
           | None => []
           | Some c' => execution fuel' c'
           end
       end.

(** [steps n c]: the configuration after exactly [n] steps, if any. *)
Fixpoint steps `{Kernel} (n : nat) (c : config) : option config :=
  match n with
  | O => Some c
  | S n' =>
      match step c with
      | None => None
      | Some c' => steps n' c'
      end
  end.

(** Where the machine stops according to [run], and after how many steps. *)
Definition final_config `{Kernel} (r : result) : config :=
  match ending r with
  | Became img => Target img (final_proc r) (final_fs r)
  | Exited s => Terminated s (final_fs r)
  end.

Definition run_length `{Kernel} (r : result) : nat :=
  match ending r with
  | Became _ => length (trace r)
  | Exited _ => S (length (trace r))
  end.

(** The states of the specification's machine. *)
Inductive phase : Type :=
| RunningAsLauncher
| RunningAsTarget
| TerminatedWithStatus (status : Z).

Definition phase_of `{Kernel} (c : config) : phase :=
  match c with
  | Launcher _ _ _ => RunningAsLauncher
  | Target _ _ _ => RunningAsTarget
  | Terminated s _ => TerminatedWithStatus s
  end.

Definition phase_eqb (a b : phase) : bool :=
  match a, b with
  | RunningAsLauncher, RunningAsLauncher => true
  | RunningAsTarget, RunningAsTarget => true
  | TerminatedWithStatus s, TerminatedWithStatus t => s =? t
  | _, _ => false
  end.

(** The phase changes along a list of phases: stuttering removed. *)
Fixpoint transitions (l : list phase) : list phase :=
  match l with
  | [] => []
  | a :: l' =>
      match l' with
      | [] => [a]
      | b :: _ => if phase_eqb a b then transitions l' else a :: transitions l'
      end
  end.

(** ** Named parts of the launcher's one request *)

Definition the_request `{Header} : call :=
  Execve TOR_ARM_REPLACE_TORRC NULL NULL.

(** The image that request asks for: the fixed path, started with the
    vectors the two null pointers stand for. *)
Definition target_image `{Header} : image :=
  {| img_path := TOR_ARM_REPLACE_TORRC;
     img_argv := vec NULL;
     img_envp := vec NULL |}.

(** The kernel's verdict on the launcher's request. *)
Definition verdict `{Header} `{Kernel} (pr : proc) (fs : FS) : option Z :=
  exec_check (p_cred pr) fs TOR_ARM_REPLACE_TORRC NULL NULL.

(** Two invocations that differ at most in the argument vector. *)
Definition same_but_argv (a b : proc) : Prop :=
  p_environ a = p_environ b /\ p_cred a = p_cred b /\ p_errno a = p_errno b.

(** Two invocations that differ at most in the invoker's identity. *)
Definition same_but_cred (a b : proc) : Prop :=
  p_argv a = p_argv b /\ p_environ a = p_environ b /\ p_errno a = p_errno b.



(** ** A concrete kernel, for running the launcher on examples

    Permission bits as in chmod(2); the launcher is meant to be installed
    [chown root:debian-arm], [chmod 04750] (header comment of override.c). *)
Module Posix.

Record file : Type := {
  f_uid : Z;
  f_gid : Z;
  f_mode : Z;
  f_program : bool
}.

Definition fs : Type := list (string * file).

Fixpoint lookup (path : string) (t : fs) : option file :=
  match t with
  | [] => None
  | (p, f) :: t' => if String.eqb p path then Some f else lookup path t'
  end.

Definition ENOENT : Z := 2.
Definition ENOEXEC : Z := 8.
Definition EACCES : Z := 13.
Definition ENOSYS : Z := 38.

(** Owner, group and other execute bits: 0100, 0010, 0001. *)
Definition may_exec (c : cred) (f : file) : bool :=
  if euid c =? 0 then
    Z.testbit (f_mode f) 6 || Z.testbit (f_mode f) 3 || Z.testbit (f_mode f) 0
  else if euid c =? f_uid f then Z.testbit (f_mode f) 6
  else if (egid c =? f_gid f) || existsb (Z.eqb (f_gid f)) (groups c)
       then Z.testbit (f_mode f) 3
  else Z.testbit (f_mode f) 0.

Definition check (c : cred) (t : fs) (path : string) (argv envp : vector)
  : option Z :=
  match lookup path t with
  | None => Some ENOENT
  | Some f =>
      if negb (may_exec c f) then Some EACCES
      else if negb (f_program f) then Some ENOEXEC
      else None
  end.

Definition kernel : Kernel :=
  {| FS := fs;
     exec_check := check;
     sys_other := fun _ pr t => (set_errno ENOSYS pr, t, -1) |}.

(** The path named in the header comment of override.c. *)
Definition header : Header :=
  {| TOR_ARM_REPLACE_TORRC := "/usr/bin/tor-arm-replace-torrc.py" |}.

Definition root : cred :=
  {| ruid := 1000; euid := 0; rgid := 1000; egid := 1000; groups := [1000] |}.

Definition nobody : cred :=
  {| ruid := 65534; euid := 65534; rgid := 65534; egid := 65534;
     groups := [] |}.

Definition invocation (argv env : list string) (c : cred) : proc :=
  {| p_argv := argv; p_environ := env; p_cred := c; p_errno := 0 |}.

(** mode 0750 = 488, mode 0640 = 416. *)
Definition installed : fs :=
  [("/usr/bin/tor-arm-replace-torrc.py",
    {| f_uid := 0; f_gid := 120; f_mode := 488; f_program := true |})].

Definition not_executable : fs :=
  [("/usr/bin/tor-arm-replace-torrc.py",
    {| f_uid := 0; f_gid := 120; f_mode := 416; f_program := true |})].

Definition missing : fs := [].

(** What a hostile invoker might pass. *)
Definition env : list string := ["PATH=/tmp/evil"; "LD_PRELOAD=/tmp/evil.so"].

Definition hostile : list string :=
  ["tor-arm-replace-torrc"; "--exec"; "/bin/sh"].

End Posix.

(** * Properties *)

(** ** Programs in general *)

Section Machine.
Context {K : Kernel}.

Lemma final_config_logged (c : call) (r : result) :
  final_config (logged c r) = final_config r.
Proof. reflexivity. Qed.

Lemma run_length_logged (c : call) (r : result) :
  run_length (logged c r) = S (run_length r).
Proof. unfold run_length; simpl. destruct (ending r); reflexivity. Qed.

Lemma final_config_stuck (r : result) : step (final_config r) = None.
Proof. unfold final_config. destruct (ending r); reflexivity. Qed.

(** The machine reaches, in [run_length] steps, the end that [run]
    computes: every program of [prog] terminates. *)
Lemma steps_run (p : prog Z) :
  forall pr fs,
    steps (run_length (run p pr fs)) (Launcher p pr fs)
    = Some (final_config (run p pr fs)).
Proof.
  induction p as [r | c k IH]; intros pr fs.
  - reflexivity.
  - simpl run. destruct (kernel c pr fs) as [[pr' fs'] [r | img]] eqn:E.
    + rewrite run_length_logged, final_config_logged.
      simpl steps. rewrite E. apply IH.
    + unfold run_length, final_config; simpl. rewrite E. reflexivity.
Qed.

Lemma execution_one (c : config) :
  execution 1 c = c :: match step c with Some c' => [c'] | None => [] end.
Proof. simpl. destruct (step c); reflexivity. Qed.

Lemma steps_stuck (c : config) :
  step c = None -> forall m, (0 < m)%nat -> steps m c = None.
Proof.
  intros Hc m Hm. destruct m as [| m]; [lia |]. simpl. rewrite Hc. reflexivity.
Qed.

Lemma steps_add (n m : nat) :
  forall c, steps (n + m) c
            = match steps n c with Some c' => steps m c' | None => None end.
Proof.
  induction n as [| n IH]; intros c; simpl.
  - reflexivity.
  - destruct (step c); [apply IH | reflexivity].
Qed.

(** No execution is longer than [run_length]. *)
Lemma steps_beyond_run (p : prog Z) pr fs (m : nat) :
  (run_length (run p pr fs) < m)%nat -> steps m (Launcher p pr fs) = None.
Proof.
  intros Hm.
  replace m with (run_length (run p pr fs) + (m - run_length (run p pr fs)))%nat
    by lia.
  rewrite steps_add, steps_run.
  apply steps_stuck; [apply final_config_stuck | lia].
Qed.

End Machine.

(** ** The launcher *)

Section Launcher.
Context {hdr : Header} {K : Kernel}.

Lemma main_code : main = Call the_request (fun r => Ret r).
Proof. reflexivity. Qed.

Lemma vec_NULL : vec NULL = [].
Proof. reflexivity. Qed.

Lemma exit_status_minus_one : exit_status (-1) = 255.
Proof. reflexivity. Qed.

(** The one run of the launcher, by the kernel's verdict. *)
Lemma run_main (pr : proc) (fs : FS) :
  run main pr fs
  = match verdict pr fs with
    | None =>
        {| trace := [the_request]; ending := Became target_image;
           final_proc := pr; final_fs := fs |}
    | Some e =>
        {| trace := [the_request]; ending := Exited 255;
           final_proc := set_errno e pr; final_fs := fs |}
    end.
Proof.
  rewrite main_code. unfold the_request, verdict. simpl.
  destruct (exec_check (p_cred pr) fs TOR_ARM_REPLACE_TORRC NULL NULL);
    reflexivity.
Qed.

Lemma trace_main (pr : proc) (fs : FS) : trace (run main pr fs) = [the_request].
Proof. rewrite run_main. destruct (verdict pr fs); reflexivity. Qed.

Lemma ending_main (pr : proc) (fs : FS) :
  ending (run main pr fs)
  = match verdict pr fs with
    | None => Became target_image
    | Some _ => Exited 255
    end.
Proof. rewrite run_main. destruct (verdict pr fs); reflexivity. Qed.

Lemma final_fs_main (pr : proc) (fs : FS) : final_fs (run main pr fs) = fs.
Proof. rewrite run_main. destruct (verdict pr fs); reflexivity. Qed.

Lemma step_main (pr : proc) (fs : FS) :
  step (Launcher main pr fs)
  = match verdict pr fs with
    | None => Some (Target target_image pr fs)
    | Some e => Some (Launcher (Ret (-1)) (set_errno e pr) fs)
    end.
Proof.
  rewrite main_code. unfold the_request, verdict. simpl.
  destruct (exec_check (p_cred pr) fs TOR_ARM_REPLACE_TORRC NULL NULL);
    reflexivity.
Qed.

Lemma execution_main (pr : proc) (fs : FS) (n : nat) :
  execution (2 + n) (Launcher main pr fs)
  = match verdict pr fs with
    | None => [Launcher main pr fs; Target target_image pr fs]
    | Some e =>
        [Launcher main pr fs;
         Launcher (Ret (-1)) (set_errno e pr) fs;
         Terminated 255 fs]
    end.
Proof.
  change (execution (2 + n) (Launcher main pr fs))
    with (Launcher main pr fs
          :: match step (Launcher main pr fs) with
             | None => []
             | Some c' => execution (S n) c'
             end).
  rewrite step_main. destruct (verdict pr fs) as [e |].
  - simpl. destruct n; reflexivity.
  - reflexivity.
Qed.

(** ** The claims *)

(** C1. For every invocation the launcher asks for its process image to be
    replaced by the compile-time-fixed target, with null argument and
    environment vectors, that is, an empty argument vector and an empty
    environment: this request is the only thing it does, the image the
    process becomes when the kernel grants it is the target started with no
    argument and no environment, and so none of the launcher's environment
    variables reaches the target. *)
Theorem main_execs_fixed_target_with_nothing (pr : proc) (fs : FS) :
  trace (run main pr fs) = [Execve TOR_ARM_REPLACE_TORRC NULL NULL]
  /\ ending (run main pr fs)
     = match verdict pr fs with
       | None => Became {| img_path := TOR_ARM_REPLACE_TORRC;
                           img_argv := []; img_envp := [] |}
       | Some _ => Exited 255
       end
  /\ (forall img, ending (run main pr fs) = Became img ->
       img_path img = TOR_ARM_REPLACE_TORRC
       /\ img_argv img = []
       /\ img_envp img = []
       /\ forall v, In v (p_environ pr) -> ~ In v (img_envp img)).
Proof.
  split; [apply trace_main |]. split; [apply ending_main |].
  intros img Himg. rewrite ending_main in Himg.
  destruct (verdict pr fs); [discriminate |].
  injection Himg as <-. repeat split. intros v _ [].
Qed.

(** C2. If the exec fails, whatever the errno, the launcher terminates with
    the non-zero exit status 255; the failed [execve] is the only call it
    has issued: no second attempt, no other program executed, nothing
    written. *)
Theorem exec_failure_exits_nonzero_silently (pr : proc) (fs : FS) (e : Z) :
  verdict pr fs = Some e ->
  (exists s, ending (run main pr fs) = Exited s /\ s <> 0)
  /\ trace (run main pr fs) = [Execve TOR_ARM_REPLACE_TORRC NULL NULL]
  /\ length (filter is_exec (trace (run main pr fs))) = 1%nat
  /\ existsb is_output (trace (run main pr fs)) = false
  /\ step (Terminated 255 fs) = None.
Proof.
  intros He. rewrite trace_main, ending_main, He.
  split; [exists 255; split; [reflexivity | discriminate] |].
  repeat split.
Qed.

(** C3. Two invocations that differ only in their command-line arguments
    behave identically: same calls issued, same ending, same file system;
    and the target, when started, gets none of the arguments. *)
Theorem arguments_are_ignored (pr1 pr2 : proc) (fs : FS) :
  same_but_argv pr1 pr2 ->
  behaviour (run main pr1 fs) = behaviour (run main pr2 fs)
  /\ map phase_of (execution 2 (Launcher main pr1 fs))
     = map phase_of (execution 2 (Launcher main pr2 fs))
  /\ (forall img, ending (run main pr1 fs) = Became img -> img_argv img = []).
Proof.
  intros (_ & Hcred & _).
  assert (Hv : verdict pr1 fs = verdict pr2 fs)
    by (unfold verdict; rewrite Hcred; reflexivity).
  split; [| split].
  - unfold behaviour.
    rewrite !trace_main, !ending_main, !final_fs_main, Hv. reflexivity.
  - pose proof (execution_main pr1 fs 0) as H1.
    pose proof (execution_main pr2 fs 0) as H2.
    change (2 + 0)%nat with 2%nat in H1, H2.
    rewrite H1, H2, Hv. destruct (verdict pr2 fs); reflexivity.
  - intros img Himg. rewrite ending_main in Himg.
    destruct (verdict pr1 fs); [discriminate |].
    injection Himg as <-. reflexivity.
Qed.

(** C4. For every invocation (arguments, environment, identity), every file
    system and every kernel, the only path handed to [execve] is the
    constant TOR_ARM_REPLACE_TORRC, and it is the path of the image the
    process becomes. *)
Theorem exec_path_is_the_constant (pr : proc) (fs : FS) :
  map exec_target (trace (run main pr fs)) = [Some TOR_ARM_REPLACE_TORRC]
  /\ (forall img, ending (run main pr fs) = Became img ->
       img_path img = TOR_ARM_REPLACE_TORRC).
Proof.
  rewrite trace_main, ending_main. split; [reflexivity |].
  intros img Himg. destruct (verdict pr fs); [discriminate |].
  injection Himg as <-. reflexivity.
Qed.

(** C5. The launcher has no effect but the exec call: the [execve] is the
    only call issued, so nothing is opened, written or sent; the file
    system at the end of the run is the one at its start, whether the exec
    succeeds or fails; and of the process state only [errno] changes, set by
    the failed [execve] itself. *)
Theorem no_effect_but_the_exec (pr : proc) (fs : FS) :
  trace (run main pr fs) = [Execve TOR_ARM_REPLACE_TORRC NULL NULL]
  /\ forallb is_exec (trace (run main pr fs)) = true
  /\ existsb is_file_effect (trace (run main pr fs)) = false
  /\ existsb is_network (trace (run main pr fs)) = false
  /\ final_fs (run main pr fs) = fs
  /\ final_proc (run main pr fs)
     = match verdict pr fs with
       | None => pr
       | Some e => set_errno e pr
       end.
Proof.
  rewrite trace_main, final_fs_main, run_main.
  destruct (verdict pr fs); repeat split.
Qed.

(** C6. From the running-as-launcher state the machine has exactly two
    courses.  When the kernel grants the exec, the next configuration is
    the target program and the execution ends there: no launcher code runs
    afterwards.  When the kernel refuses it, [execve] returns -1 to the
    launcher, which terminates with status 255.  No other configuration is
    ever visited. *)
Theorem launcher_two_state_machine (pr : proc) (fs : FS) (n : nat) :
  match verdict pr fs with
  | None =>
      execution (2 + n) (Launcher main pr fs)
      = [Launcher main pr fs; Target target_image pr fs]
      /\ transitions (map phase_of (execution (2 + n) (Launcher main pr fs)))
         = [RunningAsLauncher; RunningAsTarget]
      /\ step (Target target_image pr fs) = None
  | Some e =>
      execution (2 + n) (Launcher main pr fs)
      = [Launcher main pr fs;
         Launcher (Ret (-1)) (set_errno e pr) fs;
         Terminated 255 fs]
      /\ transitions (map phase_of (execution (2 + n) (Launcher main pr fs)))
         = [RunningAsLauncher; TerminatedWithStatus 255]
      /\ step (Terminated 255 fs) = None
  end.
Proof.
  rewrite execution_main. destruct (verdict pr fs); repeat split.
Qed.

(** C7. The launcher makes no identity check of its own: it never asks for
    a uid or gid, and two invocations that differ only in the invoker's
    identity issue the same single call with the same arguments.  How the
    run ends is the kernel's verdict on that call and nothing else. *)
Theorem no_identity_checks (pr1 pr2 : proc) (fs : FS) :
  same_but_cred pr1 pr2 ->
  trace (run main pr1 fs) = trace (run main pr2 fs)
  /\ trace (run main pr1 fs) = [Execve TOR_ARM_REPLACE_TORRC NULL NULL]
  /\ existsb is_identity_check (trace (run main pr1 fs)) = false
  /\ ending (run main pr1 fs)
     = match exec_check (p_cred pr1) fs TOR_ARM_REPLACE_TORRC NULL NULL with
       | None => Became target_image
       | Some _ => Exited 255
       end.
Proof.
  intros _. rewrite !trace_main, ending_main. repeat split.
Qed.

(** C8. On exec failure [main] returns the value of [execve], -1,
    unchanged, and the exit status is 255 whatever errno the kernel set. *)
Theorem exec_failure_status_is_255 (pr : proc) (fs : FS) (e : Z) :
  verdict pr fs = Some e ->
  (exists k, main = Call (Execve TOR_ARM_REPLACE_TORRC NULL NULL) k
             /\ forall r, k r = Ret r)
  /\ step (Launcher main pr fs)
     = Some (Launcher (Ret (-1)) (set_errno e pr) fs)
  /\ exit_status (-1) = 255
  /\ ending (run main pr fs) = Exited 255.
Proof.
  intros He. rewrite step_main, ending_main, He.
  split; [exists (fun r => Ret r); split; reflexivity |].
  repeat split.
Qed.

(** C9. [main] is one [execve] whose result is returned at once, and every
    invocation terminates: within two steps the machine is stuck, either as
    the target program or terminated, and no longer execution exists. *)
Theorem main_terminates (pr : proc) (fs : FS) :
  (exists k, main = Call (Execve TOR_ARM_REPLACE_TORRC NULL NULL) k
             /\ forall r, k r = Ret r)
  /\ exists (n : nat) (c : config),
       (n <= 2)%nat
       /\ steps n (Launcher main pr fs) = Some c
       /\ step c = None
       /\ (c = Target target_image pr fs \/ c = Terminated 255 fs)
       /\ forall m, (n < m)%nat -> steps m (Launcher main pr fs) = None.
Proof.
  split; [exists (fun r => Ret r); split; reflexivity |].
  exists (run_length (run main pr fs)), (final_config (run main pr fs)).
  split; [| split; [apply steps_run | split; [apply final_config_stuck |]]].
  - rewrite run_main. destruct (verdict pr fs); unfold run_length; simpl; lia.
  - split; [| intros m; apply steps_beyond_run].
    rewrite run_main. destruct (verdict pr fs); [right | left]; reflexivity.
Qed.

End Launcher.

(** ** Further properties of [main] *)

Section Further.
Context {hdr : Header} {K : Kernel}.

(** X1. What the launcher does is fixed by the invoker's credentials and
    the file system: two invocations under the same credentials behave
    identically whatever their environment variables, their arguments and
    the value of errno at start. *)
Theorem behaviour_fixed_by_credentials (pr1 pr2 : proc) (fs : FS) :
  p_cred pr1 = p_cred pr2 ->
  behaviour (run main pr1 fs) = behaviour (run main pr2 fs)
  /\ forall n, map phase_of (execution n (Launcher main pr1 fs))
               = map phase_of (execution n (Launcher main pr2 fs)).
Proof.
  intros Hcred.
  assert (Hv : verdict pr1 fs = verdict pr2 fs)
    by (unfold verdict; rewrite Hcred; reflexivity).
  split.
  - unfold behaviour.
    rewrite !trace_main, !ending_main, !final_fs_main, Hv. reflexivity.
  - intros [| [| n]].
    + reflexivity.
    + rewrite !execution_one, !step_main, Hv.
      destruct (verdict pr2 fs); reflexivity.
    + rewrite (execution_main pr1 fs n), (execution_main pr2 fs n), Hv.
      destruct (verdict pr2 fs); reflexivity.
Qed.


End Further.

Section OtherCalls.
Context {hdr : Header}.
Variable F : Type.
Variable chk : cred -> F -> string -> vector -> vector -> option Z.
Variables other1 other2 : call -> proc -> F -> proc * F * Z.

(** X3. The launcher relies on no service of the kernel but [execve]: under
    two kernels that decide exec requests alike and differ arbitrarily on
    every other call, it issues the same calls, ends the same way and
    leaves the same process state and file system. *)
Theorem only_execve_matters (pr : proc) (fs : F) :
  trace (@run (Build_Kernel chk other1) main pr fs)
  = trace (@run (Build_Kernel chk other2) main pr fs)
  /\ ending (@run (Build_Kernel chk other1) main pr fs)
     = ending (@run (Build_Kernel chk other2) main pr fs)
  /\ final_proc (@run (Build_Kernel chk other1) main pr fs)
     = final_proc (@run (Build_Kernel chk other2) main pr fs)
  /\ final_fs (@run (Build_Kernel chk other1) main pr fs)
     = final_fs (@run (Build_Kernel chk other2) main pr fs).
Proof.
  rewrite (@run_main hdr (Build_Kernel chk other1)).
  rewrite (@run_main hdr (Build_Kernel chk other2)).
  unfold verdict; simpl.
  destruct (chk (p_cred pr) fs TOR_ARM_REPLACE_TORRC NULL NULL);
    repeat split.
Qed.

End OtherCalls.

(** ** The launcher on the concrete kernel *)

Section Examples.
Import Posix.
Local Existing Instance Posix.header.
Local Existing Instance Posix.kernel.

(** Installed target, setuid-root launcher: the process becomes the target,
    with no argument and no environment. *)
Example run_installed :
  run main (invocation hostile env root) installed
  = {| trace := [Execve "/usr/bin/tor-arm-replace-torrc.py" None None];
       ending := Became {| img_path := "/usr/bin/tor-arm-replace-torrc.py";
                           img_argv := []; img_envp := [] |};
       final_proc := invocation hostile env root;
       final_fs := installed |}.
Proof. reflexivity. Qed.

(** Missing target: ENOENT, exit status 255. *)
Example run_missing :
  run main (invocation [] env root) missing
  = {| trace := [Execve "/usr/bin/tor-arm-replace-torrc.py" None None];
       ending := Exited 255;
       final_proc := set_errno ENOENT (invocation [] env root);
       final_fs := missing |}.
Proof. reflexivity. Qed.

(** Target without execute permission: EACCES, the same exit status. *)
Example run_not_executable :
  ending (run main (invocation [] env root) not_executable) = Exited 255
  /\ p_errno (final_proc (run main (invocation [] env root) not_executable))
     = EACCES.
Proof. split; reflexivity. Qed.

(** The same call from two identities: the kernel, not the launcher,
    tells them apart. *)
Example kernel_decides :
  ending (run main (invocation [] env root) installed) = Became target_image
  /\ ending (run main (invocation [] env nobody) installed) = Exited 255.
Proof. split; reflexivity. Qed.

End Examples.

(** ** Witnesses *)

Lemma exec_failure_exits_nonzero_silently_witness :
  @verdict Posix.header Posix.kernel
     (Posix.invocation [] [] Posix.nobody) Posix.missing
  = Some Posix.ENOENT
  /\ (exists s,
        ending (@run Posix.kernel (@main Posix.header)
                  (Posix.invocation [] [] Posix.nobody) Posix.missing)
        = Exited s /\ s <> 0).
Proof.
  split; [reflexivity |].
  apply (@exec_failure_exits_nonzero_silently Posix.header Posix.kernel
           (Posix.invocation [] [] Posix.nobody) Posix.missing Posix.ENOENT).
  reflexivity.
Defined.

Lemma arguments_are_ignored_witness :
  same_but_argv
    (Posix.invocation ["tor-arm-replace-torrc"; "--exec"; "/bin/sh"]
       ["HOME=/root"] Posix.root)
    (Posix.invocation [] ["HOME=/root"] Posix.root)
  /\ behaviour
       (@run Posix.kernel (@main Posix.header)
          (Posix.invocation ["tor-arm-replace-torrc"; "--exec"; "/bin/sh"]
             ["HOME=/root"] Posix.root)
          Posix.installed)
     = behaviour
         (@run Posix.kernel (@main Posix.header)
            (Posix.invocation [] ["HOME=/root"] Posix.root)
            Posix.installed).
Proof.
  split; [repeat split |].
  apply (@arguments_are_ignored Posix.header Posix.kernel
           (Posix.invocation ["tor-arm-replace-torrc"; "--exec"; "/bin/sh"]
              ["HOME=/root"] Posix.root)
           (Posix.invocation [] ["HOME=/root"] Posix.root)
           Posix.installed).
  repeat split.
Defined.

Lemma no_identity_checks_witness :
  same_but_cred
    (Posix.invocation [] ["HOME=/root"] Posix.root)
    (Posix.invocation [] ["HOME=/root"] Posix.nobody)
  /\ trace
       (@run Posix.kernel (@main Posix.header)
          (Posix.invocation [] ["HOME=/root"] Posix.root) Posix.installed)
     = trace
         (@run Posix.kernel (@main Posix.header)
            (Posix.invocation [] ["HOME=/root"] Posix.nobody) Posix.installed).
Proof.
  split; [repeat split |].
  apply (@no_identity_checks Posix.header Posix.kernel
           (Posix.invocation [] ["HOME=/root"] Posix.root)
           (Posix.invocation [] ["HOME=/root"] Posix.nobody)
           Posix.installed).
  repeat split.
Defined.

Lemma exec_failure_status_is_255_witness :
  @verdict Posix.header Posix.kernel
     (Posix.invocation [] [] Posix.nobody) Posix.not_executable
  = Some Posix.EACCES
  /\ ending (@run Posix.kernel (@main Posix.header)
               (Posix.invocation [] [] Posix.nobody) Posix.not_executable)
     = Exited 255.
Proof.
  split; [reflexivity |].
  apply (@exec_failure_status_is_255 Posix.header Posix.kernel
           (Posix.invocation [] [] Posix.nobody) Posix.not_executable
           Posix.EACCES).
  reflexivity.
Defined.

Lemma behaviour_fixed_by_credentials_witness :
  p_cred (Posix.invocation Posix.hostile Posix.env Posix.root)
  = p_cred (set_errno Posix.EACCES (Posix.invocation [] [] Posix.root))
  /\ behaviour
       (@run Posix.kernel (@main Posix.header)
          (Posix.invocation Posix.hostile Posix.env Posix.root)
          Posix.installed)
     = behaviour
         (@run Posix.kernel (@main Posix.header)
            (set_errno Posix.EACCES (Posix.invocation [] [] Posix.root))
            Posix.installed).
Proof.
  split; [reflexivity |].
  apply (@behaviour_fixed_by_credentials Posix.header Posix.kernel
           (Posix.invocation Posix.hostile Posix.env Posix.root)
           (set_errno Posix.EACCES (Posix.invocation [] [] Posix.root))
           Posix.installed).
  reflexivity.
Defined.
